(** * rss-feed-agg: API-key extraction, API model converters and the
      feed-ingestion core

    A shallow embedding of the Go sources of the repository
    (internal/utils/auth.go, the handlers' model converters,
    internal/database/models.go and cmd main) together with the storage
    and pipeline contracts the ingestion core is specified against. *)

From Stdlib Require Import ZArith NArith Ascii String List Lia Bool.
From Stdlib Require Import Sorting.Sorted Sorting.Permutation.
From stdpp Require Import base option list sorting gmap strings.

Local Open Scope string_scope.
Local Open Scope list_scope.

(** ** Go primitives used by the sources *)

Module gostrings.

(** Go strings are byte sequences; [String.string] is a list of bytes. *)

Definition is_upper (c : ascii) : bool :=
  let n := nat_of_ascii c in (65 <=? n)%nat && (n <=? 90)%nat.

Definition is_lower (c : ascii) : bool :=
  let n := nat_of_ascii c in (97 <=? n)%nat && (n <=? 122)%nat.

Definition is_digit (c : ascii) : bool :=
  let n := nat_of_ascii c in (48 <=? n)%nat && (n <=? 57)%nat.

Definition to_upper (c : ascii) : ascii :=
  if is_lower c then ascii_of_nat (nat_of_ascii c - 32) else c.

Definition to_lower (c : ascii) : ascii :=
  if is_upper c then ascii_of_nat (nat_of_ascii c + 32) else c.

(** [strings.Split(s, sep)] for a separator of one byte: the substrings
    between the occurrences of [sep], so one more than there are
    occurrences; [Split("", sep)] is the one-element slice holding the
    empty string. *)
Fixpoint Split (s : string) (sep : ascii) : list string :=
  match s with
  | EmptyString => [EmptyString]
  | String a rest =>
      if Ascii.eqb a sep then EmptyString :: Split rest sep
      else match Split rest sep with
           | hd :: tl => String a hd :: tl
           | [] => [String a EmptyString]
           end
  end.

(** Number of occurrences of the byte [c] in [s] ([strings.Count]). *)
Fixpoint Count (s : string) (c : ascii) : nat :=
  match s with
  | EmptyString => 0
  | String a rest => (if Ascii.eqb a c then 1 else 0) + Count rest c
  end.

End gostrings.

Module http.

(** [http.Header] is [map[string][]string]. *)
Abbreviation Header := (gmap string (list string)).

(** textproto's [validHeaderFieldByte]: the token characters of RFC 7230. *)
Definition validHeaderFieldByte (c : ascii) : bool :=
  gostrings.is_upper c || gostrings.is_lower c || gostrings.is_digit c
  || existsb (Ascii.eqb c)
       ["!"; "#"; "$"; "%"; "&"; "'"; "*"; "+"; "-"; "."; "^"; "_"; "`"; "|"; "~"]%char.

Fixpoint all_valid (s : string) : bool :=
  match s with
  | EmptyString => true
  | String c rest => validHeaderFieldByte c && all_valid rest
  end.

(** The canonicalisation loop: the first letter and every letter after a
    hyphen are upper-cased, the others lower-cased. *)
Fixpoint canonical_from (upper : bool) (s : string) : string :=
  match s with
  | EmptyString => EmptyString
  | String c rest =>
      let c' := if upper then gostrings.to_upper c else gostrings.to_lower c in
      String c' (canonical_from (Ascii.eqb c' "-"%char) rest)
  end.

(** [textproto.CanonicalMIMEHeaderKey]: a key holding a byte that is not a
    token character is returned unchanged. *)
Definition CanonicalMIMEHeaderKey (s : string) : string :=
  if all_valid s then canonical_from true s else s.

(** [Header.Get]: the first value stored under the canonical key, or the
    empty string when there is none. *)
Definition Get (h : Header) (key : string) : string :=
  match h !! CanonicalMIMEHeaderKey key with
  | Some (v :: _) => v
  | _ => ""
  end.

End http.

(** ** internal/utils/auth.go *)

Module utils.

(** A Go [error]: [None] is [nil], [Some msg] is [errors.New(msg)]. *)
Definition error := option string.

Definition GetAPIKey (headers : http.Header) : string * error :=
  let val := http.Get headers "x-api-key" in
  if String.eqb val "" then ("", Some "no auth info found")
  else
    let vals := gostrings.Split val " "%char in
    if negb (length vals =? 2)%nat then ("", Some "malformed auth header")
    else
      if negb (String.eqb (nth 0 vals "") "ApiKey")
      then ("", Some "malformed first part of auth header")
      else (nth 1 vals "", None).

End utils.

(** ** Values shared by the database and the API models *)

(** [uuid.UUID] is sixteen bytes; the embedding keeps the 128-bit number
    they spell, most significant byte first. *)
Definition UUID := N.

(** [time.Time], as nanoseconds counted from the zero [time.Time]. *)
Definition Time := Z.

(** [uuid.NullUUID]. *)
Record NullUUID := { NullUUID_UUID : UUID; NullUUID_Valid : bool }.

(** [sql.NullString]. *)
Record NullString := { NullString_String : string; NullString_Valid : bool }.

(** Indexed loops over slices. *)
Module goslice.
Section Range.
Context {A B : Type}.

(** [make([]B, n)]: [n] zero values. *)
Definition make (zero : B) (n : nat) : list B := replicate n zero.

(** [for i, x := range xs { out[i] = f(x) }], entered at index [i]. *)
Fixpoint range_assign (f : A -> B) (i : nat) (xs : list A) (out : list B)
  : list B :=
  match xs with
  | [] => out
  | x :: rest => range_assign f (S i) rest (<[i := f x]> out)
  end.
End Range.
End goslice.

(** ** internal/database/models.go *)

Module database.

Record Feed := {
  Feed_ID : UUID;
  Feed_Name : string;
  Feed_CreatedAt : Time;
  Feed_UpdatedAt : Time;
  Feed_Url : string;
  Feed_UserID : NullUUID
}.

(** The generated [Post] model is read by the handlers through the fields
    below; [Description] is a [sql.NullString], as its [Valid] and
    [String] selectors show. *)
Record Post := {
  Post_ID : UUID;
  Post_CreatedAt : Time;
  Post_UpdatedAt : Time;
  Post_Title : string;
  Post_Description : NullString;
  Post_PublishedAt : Time;
  Post_Url : string;
  Post_FeedID : UUID
}.

(** [User] as models.go declares it, with the [Email] column the
    handlers' converter reads besides. *)
Record User := {
  User_ID : UUID;
  User_Name : string;
  User_CreatedAt : Time;
  User_UpdatedAt : Time;
  User_ApiKey : string;
  User_Email : string
}.

(** The generated [FeedFollow] model, through the fields the handlers
    read. *)
Record FeedFollow := {
  FeedFollow_ID : UUID;
  FeedFollow_CreatedAt : Time;
  FeedFollow_UpdatedAt : Time;
  FeedFollow_UserID : UUID;
  FeedFollow_FeedID : UUID
}.

End database.

(** ** handlers: API models and their converters *)

Module handlers.

(** The API feed. [UserID] is filled with the database field as it is, so
    it carries the database field's type. *)
Record Feed := {
  Feed_ID : UUID;
  Feed_Name : string;
  Feed_CreatedAt : Time;
  Feed_UpdatedAt : Time;
  Feed_Url : string;
  Feed_UserID : NullUUID
}.

Definition convertDatabaseFeedToAPIFeed (dbFeed : database.Feed) : Feed :=
  {| Feed_ID := database.Feed_ID dbFeed;
     Feed_Name := database.Feed_Name dbFeed;
     Feed_CreatedAt := database.Feed_CreatedAt dbFeed;
     Feed_UpdatedAt := database.Feed_UpdatedAt dbFeed;
     Feed_Url := database.Feed_Url dbFeed;
     Feed_UserID := database.Feed_UserID dbFeed |}.

(** The zero [Feed], which [make] fills a fresh slice with. *)
Definition zeroFeed : Feed :=
  {| Feed_ID := 0%N; Feed_Name := ""; Feed_CreatedAt := 0%Z;
     Feed_UpdatedAt := 0%Z; Feed_Url := "";
     Feed_UserID := {| NullUUID_UUID := 0%N; NullUUID_Valid := false |} |}.

Definition convertDatabaseFeedsToAPIFeeds (dbFeeds : list database.Feed)
  : list Feed :=
  let feeds := goslice.make zeroFeed (length dbFeeds) in
  goslice.range_assign convertDatabaseFeedToAPIFeed 0 dbFeeds feeds.

(** [Description] is a [*string]: [None] is the nil pointer, [Some s] a
    pointer to a string holding [s]. *)
Record Post := {
  Post_ID : UUID;
  Post_Title : string;
  Post_Description : option string;
  Post_PublishedAt : Time;
  Post_Url : string;
  Post_FeedID : UUID;
  Post_CreatedAt : Time;
  Post_UpdatedAt : Time
}.

Definition convertDatabasePostToAPIPost (dbPost : database.Post) : Post :=
  let description :=
    if NullString_Valid (database.Post_Description dbPost)
    then Some (NullString_String (database.Post_Description dbPost))
    else None in
  {| Post_ID := database.Post_ID dbPost;
     Post_Title := database.Post_Title dbPost;
     Post_Url := database.Post_Url dbPost;
     Post_FeedID := database.Post_FeedID dbPost;
     Post_PublishedAt := database.Post_PublishedAt dbPost;
     Post_Description := description;
     Post_CreatedAt := database.Post_CreatedAt dbPost;
     Post_UpdatedAt := database.Post_UpdatedAt dbPost |}.

Definition zeroPost : Post :=
  {| Post_ID := 0%N; Post_Title := ""; Post_Description := None;
     Post_PublishedAt := 0%Z; Post_Url := ""; Post_FeedID := 0%N;
     Post_CreatedAt := 0%Z; Post_UpdatedAt := 0%Z |}.

Definition convertDatabasePostsToAPIPosts (dbPosts : list database.Post)
  : list Post :=
  let posts := goslice.make zeroPost (length dbPosts) in
  goslice.range_assign convertDatabasePostToAPIPost 0 dbPosts posts.

Record User := {
  User_ID : UUID;
  User_Name : string;
  User_CreatedAt : Time;
  User_UpdatedAt : Time;
  User_ApiKey : string;
  User_Email : string;
  User_AccessToken : string;
  User_RefreshToken : string
}.

(** The struct literal leaves both tokens at their zero value, the empty
    string; each is then assigned when its argument is not empty. *)
Definition convertDatabaseUserToAPIUser (dbUser : database.User)
           (accessToken refreshToken : string) : User :=
  let user :=
    {| User_ID := database.User_ID dbUser;
       User_Name := database.User_Name dbUser;
       User_CreatedAt := database.User_CreatedAt dbUser;
       User_UpdatedAt := database.User_UpdatedAt dbUser;
       User_ApiKey := database.User_ApiKey dbUser;
       User_Email := database.User_Email dbUser;
       User_AccessToken := "";
       User_RefreshToken := "" |} in
  let user :=
    if negb (String.eqb accessToken "")
    then {| User_ID := User_ID user; User_Name := User_Name user;
            User_CreatedAt := User_CreatedAt user;
            User_UpdatedAt := User_UpdatedAt user;
            User_ApiKey := User_ApiKey user; User_Email := User_Email user;
            User_AccessToken := accessToken;
            User_RefreshToken := User_RefreshToken user |}
    else user in
  let user :=
    if negb (String.eqb refreshToken "")
    then {| User_ID := User_ID user; User_Name := User_Name user;
            User_CreatedAt := User_CreatedAt user;
            User_UpdatedAt := User_UpdatedAt user;
            User_ApiKey := User_ApiKey user; User_Email := User_Email user;
            User_AccessToken := User_AccessToken user;
            User_RefreshToken := refreshToken |}
    else user in
  user.

Record FeedFollow := {
  FeedFollow_ID : UUID;
  FeedFollow_CreatedAt : Time;
  FeedFollow_UpdatedAt : Time;
  FeedFollow_UserID : UUID;
  FeedFollow_FeedID : UUID
}.

Definition convertDatabaseFeedFollowToAPIFeedFollow
           (dbFeedFollow : database.FeedFollow) : FeedFollow :=
  {| FeedFollow_ID := database.FeedFollow_ID dbFeedFollow;
     FeedFollow_CreatedAt := database.FeedFollow_CreatedAt dbFeedFollow;
     FeedFollow_UpdatedAt := database.FeedFollow_UpdatedAt dbFeedFollow;
     FeedFollow_UserID := database.FeedFollow_UserID dbFeedFollow;
     FeedFollow_FeedID := database.FeedFollow_FeedID dbFeedFollow |}.

Definition zeroFeedFollow : FeedFollow :=
  {| FeedFollow_ID := 0%N; FeedFollow_CreatedAt := 0%Z;
     FeedFollow_UpdatedAt := 0%Z; FeedFollow_UserID := 0%N;
     FeedFollow_FeedID := 0%N |}.

Definition convertDatabaseFeedFollowsToAPIFeedFollows
           (dbFeedFollows : list database.FeedFollow) : list FeedFollow :=
  let feedFollows := goslice.make zeroFeedFollow (length dbFeedFollows) in
  goslice.range_assign convertDatabaseFeedFollowToAPIFeedFollow 0
                       dbFeedFollows feedFollows.

End handlers.

(** ** Names used by the statements about GetAPIKey *)

(** The header value the function inspects and its parts. *)
Definition auth_value (headers : http.Header) : string :=
  http.Get headers "x-api-key".

Definition auth_parts (headers : http.Header) : list string :=
  gostrings.Split (auth_value headers) " "%char.

(** The accepting condition: a value that is not empty, in two parts, the
    first of them the literal [ApiKey]. *)
Definition well_formed (headers : http.Header) : Prop :=
  auth_value headers <> "" /\
  length (auth_parts headers) = 2 /\
  nth 0 (auth_parts headers) "" = "ApiKey".


(** A database post for the examples. *)
Definition sample_post (description : NullString) : database.Post :=
  {| database.Post_ID := 7%N; database.Post_CreatedAt := 100%Z;
     database.Post_UpdatedAt := 200%Z; database.Post_Title := "Release notes";
     database.Post_Description := description;
     database.Post_PublishedAt := 50%Z;
     database.Post_Url := "https://example.org/notes";
     database.Post_FeedID := 3%N |}.


(** ** The syndication parser *)

Module parser.

(** Modelled from the spec: the candidate post of section 3, the parser's
    output before persistence. The parser itself is absent from the
    sources. *)
Record Candidate := {
  cand_title : string;
  cand_link : string;
  cand_description : option string;
  cand_published : Time
}.

(** Modelled from the spec: one [<item>] or [<entry>] element as decoded
    from the document; a field is [None] when the element lacks it, when
    its link cannot be resolved or when its date cannot be parsed. An
    element that is itself malformed is [Garbled]. *)
Record Fields := {
  raw_title : option string;
  raw_link : option string;
  raw_description : option string;
  raw_published : option Time
}.

(** Modelled from the spec: an element of the document, well-formed or
    not (section 4.4 has malformed items skipped). *)
Inductive Item :=
| Garbled
| Element (f : Fields).

(** Modelled from the spec: a fetched body, read as XML: malformed at the
    document level, an RSS 2.0 channel with its items or an Atom feed with
    its entries, in document order. *)
Inductive Document :=
| Malformed
| RSS (items : list Item)
| Atom (entries : list Item).

(** Modelled from the spec: section 4.4, the parser being absent from the
    sources: the title falls back to the
    empty string, the published timestamp to the fetch time, the
    description stays optional; an element without a resolvable link and a
    malformed element give no candidate. *)
Definition candidate_of (fetch_time : Time) (it : Item) : option Candidate :=
  match it with
  | Garbled => None
  | Element f =>
      match raw_link f with
      | None => None
      | Some link =>
          Some {| cand_title := default "" (raw_title f);
                  cand_link := link;
                  cand_description := raw_description f;
                  cand_published := default fetch_time (raw_published f) |}
      end
  end.




(** Modelled from the spec: the candidates of a sequence of elements, in
    document order. *)
Fixpoint candidates (fetch_time : Time) (items : list Item) : list Candidate :=
  match items with
  | [] => []
  | it :: rest =>
      match candidate_of fetch_time it with
      | Some c => c :: candidates fetch_time rest
      | None => candidates fetch_time rest
      end
  end.

(** Modelled from the spec: the parser: [None] is the [ParseError] of a
    document malformed as a whole. *)
Definition parse (fetch_time : Time) (doc : Document) : option (list Candidate) :=
  match doc with
  | Malformed => None
  | RSS items => Some (candidates fetch_time items)
  | Atom entries => Some (candidates fetch_time entries)
  end.

End parser.

(** ** The storage contract of the ingestion core *)

Module storage.

(** Modelled from the spec: the row storage keeps for a feed, which the
    generated accessor layer (absent from the sources) reads and writes:
    the [Feed] of models.go together with the freshness marker of section
    3, a last-fetched timestamp where [None] is the null of a feed that was
    never fetched. *)
Record FeedRow := {
  row_feed : database.Feed;
  last_fetched : option Time
}.

Definition feed_id (r : FeedRow) : UUID := database.Feed_ID (row_feed r).

(** Modelled from the spec: the [ORDER BY] of [listFeedsToFetch], absent
    from the sources: last-fetched ascending with nulls first, ties broken
    by the feed identifier. *)
Definition fetch_key_leb (a b : FeedRow) : bool :=
  match last_fetched a, last_fetched b with
  | None, None => (feed_id a <=? feed_id b)%N
  | None, Some _ => true
  | Some _, None => false
  | Some ta, Some tb =>
      (ta <? tb)%Z || ((ta =? tb)%Z && (feed_id a <=? feed_id b)%N)
  end.

Definition fetch_before (a b : FeedRow) : Prop := Is_true (fetch_key_leb a b).

#[export] Instance fetch_before_dec (a b : FeedRow) : Decision (fetch_before a b).
Proof. unfold fetch_before. apply _. Defined.

(** Modelled from the spec: [listFeedsToFetch(limit)], absent from the
    sources: the first [limit] feed rows in the order above. *)
Definition listFeedsToFetch (limit : nat) (feeds : list FeedRow) : list FeedRow :=
  take limit (merge_sort fetch_before feeds).

(** Modelled from the spec: the durable state, feed rows and post rows. *)
Record Store := {
  feeds : list FeedRow;
  posts : list database.Post
}.

(** Modelled from the spec: what the environment decides at one storage
    call: whether storage is unavailable, and the identifier and the clock
    reading a new row receives. *)
Record Answer := {
  unavailable : bool;
  fresh_id : UUID;
  clock : Time
}.

(** Modelled from the spec: the results of [createPost] in section 6,
    success, uniqueness conflict and failure. *)
Inductive CreateResult :=
| Created
| UniqueConflict
| CreateFailure.

(** Modelled from the spec: the storage-level uniqueness constraint on the
    canonical URL, over all posts and not only those of one feed. *)
Definition url_known (url : string) (rows : list database.Post) : bool :=
  existsb (fun p => String.eqb (database.Post_Url p) url) rows.

(** Modelled from the spec: the post row a candidate is persisted as,
    bound to its feed (section 3). *)
Definition new_post (ans : Answer) (feedID : UUID) (c : parser.Candidate)
  : database.Post :=
  {| database.Post_ID := fresh_id ans;
     database.Post_CreatedAt := clock ans;
     database.Post_UpdatedAt := clock ans;
     database.Post_Title := parser.cand_title c;
     database.Post_Description :=
       match parser.cand_description c with
       | Some d => {| NullString_String := d; NullString_Valid := true |}
       | None => {| NullString_String := ""; NullString_Valid := false |}
       end;
     database.Post_PublishedAt := parser.cand_published c;
     database.Post_Url := parser.cand_link c;
     database.Post_FeedID := feedID |}.

(** Modelled from the spec: [createPost], absent from the sources: an
    insert guarded by the storage-level uniqueness of the URL, with the
    three results of section 6. *)
Definition createPost (ans : Answer) (feedID : UUID) (c : parser.Candidate)
           (st : Store) : CreateResult * Store :=
  if unavailable ans then (CreateFailure, st)
  else if url_known (parser.cand_link c) (posts st) then (UniqueConflict, st)
  else (Created, {| feeds := feeds st;
                    posts := posts st ++ [new_post ans feedID c] |}).

(** Modelled from the spec: the update of one feed row by
    [markFeedFetched]. *)
Definition set_fetched (feedID : UUID) (t : Time) (r : FeedRow) : FeedRow :=
  if (feed_id r =? feedID)%N
  then {| row_feed := row_feed r; last_fetched := Some t |}
  else r.

(** Modelled from the spec: [markFeedFetched(feedID, timestamp)], absent
    from the sources: the marker of that feed becomes the timestamp; the
    result is success or failure. *)
Definition markFeedFetched (ans : Answer) (feedID : UUID) (t : Time)
           (st : Store) : bool * Store :=
  if unavailable ans then (false, st)
  else (true, {| feeds := map (set_fetched feedID t) (feeds st);
                 posts := posts st |}).


End storage.

Definition mk_feed (id : UUID) (name url : string) (created : Time) : database.Feed :=
  {| database.Feed_ID := id; database.Feed_Name := name;
     database.Feed_CreatedAt := created; database.Feed_UpdatedAt := created;
     database.Feed_Url := url;
     database.Feed_UserID := {| NullUUID_UUID := 0%N; NullUUID_Valid := false |} |}.

Definition feed_A : storage.FeedRow :=
  {| storage.row_feed := mk_feed 9%N "A" "https://a.example/rss" 500%Z;
     storage.last_fetched := None |}.

Definition feed_B : storage.FeedRow :=
  {| storage.row_feed := mk_feed 2%N "B" "https://b.example/rss" 100%Z;
     storage.last_fetched := Some 1000%Z |}.

Definition feed_C : storage.FeedRow :=
  {| storage.row_feed := mk_feed 5%N "C" "https://c.example/atom" 300%Z;
     storage.last_fetched := Some 400%Z |}.

(** ** One feed-cycle of the ingestion pipeline *)

Module pipeline.

(** Modelled from the spec: a storage call of section 6 as the pipeline
    issued it, with its result. *)
Inductive Call :=
| CallCreatePost (feedID : UUID) (url : string) (r : storage.CreateResult)
| CallMarkFetched (feedID : UUID) (t : Time) (ok : bool).

(** Modelled from the spec: the storage and the calls made on it so far,
    oldest first. *)
Record World := {
  store : storage.Store;
  log : list Call
}.

(** Modelled from the spec: the environment, as its answer to the n-th
    storage call. *)
Definition Env := nat -> storage.Answer.

Definition call_createPost (env : Env) (feedID : UUID) (c : parser.Candidate)
           (w : World) : storage.CreateResult * World :=
  let (r, st) := storage.createPost (env (length (log w))) feedID c (store w) in
  (r, {| store := st;
         log := log w ++ [CallCreatePost feedID (parser.cand_link c) r] |}).

Definition call_markFeedFetched (env : Env) (feedID : UUID) (t : Time)
           (w : World) : bool * World :=
  let (ok, st) := storage.markFeedFetched (env (length (log w))) feedID t (store w) in
  (ok, {| store := st; log := log w ++ [CallMarkFetched feedID t ok] |}).

(** Modelled from the spec: section 4.5, the deduplicator/upserter, absent
    from the sources: every candidate is inserted in turn, a uniqueness
    conflict is skipped, any other insert failure abandons the remaining
    candidates. [true] when every candidate was attempted. *)
Fixpoint upsert (env : Env) (feedID : UUID) (cands : list parser.Candidate)
         (w : World) : bool * World :=
  match cands with
  | [] => (true, w)
  | c :: rest =>
      let (r, w') := call_createPost env feedID c w in
      match r with
      | storage.CreateFailure => (false, w')
      | _ => upsert env feedID rest w'
      end
  end.

(** Modelled from the spec: the error taxonomy of section 7, but for
    [UniqueConflict], which is no failure. *)
Inductive Reason :=
| FetchError
| ParseError
| PersistError.

(** Modelled from the spec: the states of the state machine of section
    4.5. *)
Inductive CycleState :=
| Pending
| Fetching
| Parsing
| Persisting
| Done
| Failed (reason : Reason).

(** Modelled from the spec: section 4.3, what the feed source client
    hands back: a network or timeout failure, a transport status that is
    not a success, an empty body, or the body. *)
Inductive Fetched :=
| NetworkFailure
| BadStatus (code : Z)
| EmptyBody
| Body (doc : parser.Document).

(** Modelled from the spec: the end of a failed cycle. Section 9 leaves
    open whether a cycle that fails still marks its feed as fetched;
    [mark_on_failure] is that decision. *)
Definition fail (mark_on_failure : bool) (env : Env) (feedID : UUID)
           (start : Time) (reason : Reason) (w : World) : CycleState * World :=
  if mark_on_failure
  then (Failed reason, snd (call_markFeedFetched env feedID start w))
  else (Failed reason, w).

(** Modelled from the spec: one feed-cycle, fetch, parse, persist and
    mark-fetched in sequence; [start] is the fetch start time and
    [fetched] what the network returned. *)
Definition runCycle (mark_on_failure : bool) (env : Env) (feedID : UUID)
           (start : Time) (fetched : Fetched) (w : World) : CycleState * World :=
  match fetched with
  | Body doc =>
      match parser.parse start doc with
      | None => fail mark_on_failure env feedID start ParseError w
      | Some cands =>
          let (complete, w1) := upsert env feedID cands w in
          if complete
          then
            let (ok, w2) := call_markFeedFetched env feedID start w1 in
            (if ok then Done else Failed PersistError, w2)
          else fail mark_on_failure env feedID start PersistError w1
      end
  | _ => fail mark_on_failure env feedID start FetchError w
  end.

(** The calls a cycle added to the log. *)
Definition calls_of (before after : World) : list Call :=
  drop (length (log before)) (log after).






End pipeline.

(** ** Sample inputs for the pipeline *)



(** Storage that answers every call; the n-th new row gets identifier
    [100 + n]. *)
Definition env_up : pipeline.Env :=
  fun n => {| storage.unavailable := false;
              storage.fresh_id := N.of_nat (100 + n);
              storage.clock := 5000%Z |}.

(** Storage that is unavailable at every call. *)
Definition env_down : pipeline.Env :=
  fun n => {| storage.unavailable := true;
              storage.fresh_id := 0%N;
              storage.clock := 0%Z |}.


Definition world0 : pipeline.World :=
  {| pipeline.store := {| storage.feeds := [feed_A; feed_B]; storage.posts := [] |};
     pipeline.log := [] |}.

Definition entry (title link : option string) : parser.Item :=
  parser.Element {| parser.raw_title := title; parser.raw_link := link;
                    parser.raw_description := None;
                    parser.raw_published := None |}.

(** An Atom document of three entries: the second has no link, the third
    no title. *)
Definition atom3 : parser.Document :=
  parser.Atom [entry (Some "First") (Some "https://a.example/1");
               entry (Some "Second") None;
               entry None (Some "https://a.example/3")].


(** ** Feed-cycles one after another *)

Module schedule.






End schedule.

(** ** The worker pool *)

Module pool.


(** Modelled from the spec: a cycle holds a worker slot while it is
    fetching, parsing or persisting. *)
Definition in_flight (s : pipeline.CycleState) : bool :=
  match s with
  | pipeline.Fetching | pipeline.Parsing | pipeline.Persisting => true
  | _ => false
  end.

Definition weight (s : pipeline.CycleState) : nat :=
  if in_flight s then 1 else 0.







End pool.


(** ** cmd: main *)

Module cmd.

(** [time.Duration] counts nanoseconds. *)
Definition Duration := Z.
Definition Second : Duration := 1000000000%Z.
Definition Minute : Duration := (60 * Second)%Z.

(** What [main] does that can be seen from outside, in the order it does
    it. [Fatal] is [log.Fatal]: it logs and exits the process, so nothing
    follows it and no deferred call runs. *)
Inductive Effect :=
| Log (msg : string)
| Fatal (msg : string)
| LoadDotenv
| InitRedis
| CloseRedis
| OpenDB (url : string)
| CloseDB
| GoRSSFeedScrapper (concurrency : Z) (interval : Duration)
| Ping
| HandleFunc (pattern : string)
| NotifySignals
| GoListenAndServe (addr : string)
| AwaitSignal
| Shutdown (timeout : Duration).

(** What the process finds around it. [PORT] and [POSTGRES_URL] are the
    values [os.Getenv] returns for them where [main] reads them, that is
    once [godotenv.Load] has run; [listen_ok] tells whether
    [ListenAndServe] serves until the server is shut down, rather than
    return an error of its own. *)
Record Env := {
  dotenv_ok : bool;
  PORT : string;
  POSTGRES_URL : string;
  redis_ok : bool;
  open_ok : bool;
  ping_ok : bool;
  listen_ok : bool;
  shutdown_ok : bool
}.

Definition routes : list string :=
  ["GET /health"; "GET /error"; "POST /users/create"; "POST /users/login";
   "GET /users"; "POST /feeds/create"; "GET /feeds"; "POST /feeds/follow";
   "GET /feeds/follow"; "DELETE /feeds/follow/{feedFollowID}"; "GET /posts"].

(** The part of [main] from the server set-up on. The goroutine [main]
    spawns logs that it listens and calls [ListenAndServe]; when that
    returns an error other than [ErrServerClosed] the goroutine calls
    [log.Fatalf], which ends the process while [main] waits for a signal.
    The goroutine's effects stand where they happen when no signal
    arrives before the listener has started or failed. *)
Definition serve (env : Env) (port : string) : list Effect :=
  map HandleFunc routes
  ++ [NotifySignals; GoListenAndServe (":" ++ port);
      Log ("listening on port " ++ port)]
  ++ (if listen_ok env
      then
        [AwaitSignal; Log "shutting down..."; Shutdown (5 * Second)%Z]
        ++ (if shutdown_ok env
            then [Log "server stopped"; CloseDB; CloseRedis]
            else [Fatal "could not gracefully shutdown the server"])
      else [Fatal ("could not listen on " ++ port)]).

Definition main (env : Env) : list Effect :=
  let port := if String.eqb (PORT env) "" then "3000" else PORT env in
  [Log "starting server..."; LoadDotenv]
  ++ (if dotenv_ok env then [] else [Log "No .env file found"])
  ++ (if String.eqb (PORT env) "" then [Log "defaulting to port 3000"] else [])
  ++ (if String.eqb (POSTGRES_URL env) ""
      then [Fatal "POSTGRES_URL must be set"]
      else
        InitRedis ::
        (if negb (redis_ok env) then [Fatal "can't connect to Redis"]
         else
           OpenDB (POSTGRES_URL env) ::
           (if negb (open_ok env)
            then [Fatal "can't connect to postgres database"]
            else
              GoRSSFeedScrapper 10 Minute ::
              Ping ::
              (if negb (ping_ok env)
               then [Fatal "can't reach postgres database"]
               else Log "successfully connected to database" :: serve env port)))).

Definition is_core_start (e : Effect) : bool :=
  match e with
  | GoRSSFeedScrapper _ _ => true
  | _ => false
  end.

Definition is_listen (e : Effect) : bool :=
  match e with
  | GoListenAndServe _ => true
  | _ => false
  end.


(** Start-up gets as far as the database handle. *)
Definition reaches_core (env : Env) : Prop :=
  POSTGRES_URL env <> "" /\ redis_ok env = true /\ open_ok env = true.

End cmd.

Definition env_ok : cmd.Env :=
  {| cmd.dotenv_ok := true; cmd.PORT := "8080";
     cmd.POSTGRES_URL := "postgres://localhost/rss";
     cmd.redis_ok := true; cmd.open_ok := true; cmd.ping_ok := true;
     cmd.listen_ok := true; cmd.shutdown_ok := true |}.

(** ** The HTTP handlers of main *)

Module server.

(** The process environment: [os.Getenv] gives the empty string for a
    variable that is not set. *)
Definition Getenv (environ : gmap string string) (key : string) : string :=
  default "" (environ !! key).

(** An [http.ResponseWriter], as the client sees it: the status once it
    was written, and the body so far. *)
Record ResponseWriter := {
  status : option Z;
  body : string
}.

(** [w.Write]: the first write sends status 200 when no status was sent
    before; the bytes are appended to the body. *)
Definition Write (w : ResponseWriter) (bytes : string) : ResponseWriter :=
  {| status := match status w with Some s => Some s | None => Some 200%Z end;
     body := (body w ++ bytes)%string |}.

(** The line feed that ends the greeting. *)
Definition LF : string := String (ascii_of_nat 10) EmptyString.

(** [fmt.Fprintf(w, "Hello %s!\n", name)]: the verb [%s] puts the bytes
    of a string as they are. *)
Definition Fprintf_hello (w : ResponseWriter) (name : string) : ResponseWriter :=
  Write w ("Hello " ++ name ++ "!" ++ LF)%string.

(** [handlerHealth] of the server's main, and [handler] of the earlier
    main, which has the same body. The request is not read. *)
Definition handlerHealth (environ : gmap string string) (w : ResponseWriter)
  : ResponseWriter :=
  let name := Getenv environ "NAME" in
  let name := if String.eqb name "" then "World" else name in
  Fprintf_hello w name.

Definition handler := handlerHealth.

Definition fresh : ResponseWriter := {| status := None; body := "" |}.

End server.

(** ** The earlier main *)

Module main0.

(** The environment the earlier [main] reads: it has no Redis. *)
Record Env := {
  dotenv_ok : bool;
  PORT : string;
  POSTGRES_URL : string;
  open_ok : bool;
  ping_ok : bool;
  listen_ok : bool;
  shutdown_ok : bool
}.

Definition main (env : Env) : list cmd.Effect :=
  let port := if String.eqb (PORT env) "" then "3000" else PORT env in
  [cmd.Log "starting server..."; cmd.LoadDotenv]
  ++ (if dotenv_ok env then [] else [cmd.Log "No .env file found"])
  ++ (if String.eqb (PORT env) "" then [cmd.Log "defaulting to port 3000"] else [])
  ++ (if String.eqb (POSTGRES_URL env) ""
      then [cmd.Fatal "POSTGRES_URL must be set"]
      else
        cmd.OpenDB (POSTGRES_URL env) ::
        (if negb (open_ok env)
         then [cmd.Fatal "Can't connect to postgres database"]
         else
           cmd.Ping ::
           (if negb (ping_ok env)
            then [cmd.Fatal "Can't reach postgres database"]
            else
              [cmd.Log "Successfully connected to database";
               cmd.HandleFunc "/"; cmd.NotifySignals;
               cmd.GoListenAndServe (":" ++ port);
               cmd.Log ("listening on port " ++ port)]
              ++ (if listen_ok env
                  then
                    [cmd.AwaitSignal; cmd.Log "shutting down...";
                     cmd.Shutdown (5 * cmd.Second)%Z]
                    ++ (if shutdown_ok env
                        then [cmd.Log "server stopped"; cmd.CloseDB]
                        else [cmd.Fatal
                                "could not gracefully shutdown the server"])
                  else [cmd.Fatal ("could not listen on " ++ port)])))).

End main0.

(** ** Vocabulary for the statements about main *)


(** The port the server listens on. *)
Definition listen_port (port : string) : string :=
  if String.eqb port "" then "3000" else port.

(** Every start-up step of the server's main succeeds. *)
Definition starts_up (env : cmd.Env) : Prop :=
  cmd.POSTGRES_URL env <> "" /\ cmd.redis_ok env = true
  /\ cmd.open_ok env = true /\ cmd.ping_ok env = true.

(** The environment the earlier main would have seen. *)
Definition without_redis (env : cmd.Env) : main0.Env :=
  {| main0.dotenv_ok := cmd.dotenv_ok env; main0.PORT := cmd.PORT env;
     main0.POSTGRES_URL := cmd.POSTGRES_URL env;
     main0.open_ok := cmd.open_ok env; main0.ping_ok := cmd.ping_ok env;
     main0.listen_ok := cmd.listen_ok env;
     main0.shutdown_ok := cmd.shutdown_ok env |}.

(** Sample rows for the converters. *)
Definition sample_user : database.User :=
  {| database.User_ID := 11%N; database.User_Name := "ada";
     database.User_CreatedAt := 10%Z; database.User_UpdatedAt := 20%Z;
     database.User_ApiKey := "3f9c"; database.User_Email := "ada@example.org" |}.

Definition sample_follow (id : UUID) : database.FeedFollow :=
  {| database.FeedFollow_ID := id; database.FeedFollow_CreatedAt := 10%Z;
     database.FeedFollow_UpdatedAt := 20%Z; database.FeedFollow_UserID := 11%N;
     database.FeedFollow_FeedID := 9%N |}.

(** Two nullable strings denote the same value: both null, or both valid
    with the same string. *)
Definition same_nullable (a b : NullString) : Prop :=
  NullString_Valid a = NullString_Valid b
  /\ (NullString_Valid a = true -> NullString_String a = NullString_String b).


Definition is_route (e : cmd.Effect) : bool :=
  match e with
  | cmd.HandleFunc _ => true
  | _ => false
  end.

Definition is_redis (e : cmd.Effect) : bool :=
  match e with
  | cmd.InitRedis | cmd.CloseRedis => true
  | _ => false
  end.

(** Start-up succeeds, as a boolean. *)
Definition serving (env : cmd.Env) : bool :=
  negb (String.eqb (cmd.POSTGRES_URL env) "")
  && cmd.redis_ok env && cmd.open_ok env && cmd.ping_ok env.


Definition serving0 (env : main0.Env) : bool :=
  negb (String.eqb (main0.POSTGRES_URL env) "")
  && main0.open_ok env && main0.ping_ok env.

(** A run in which the database cannot be reached. *)
Definition env_no_ping : cmd.Env :=
  {| cmd.dotenv_ok := true; cmd.PORT := "";
     cmd.POSTGRES_URL := "postgres://localhost/rss";
     cmd.redis_ok := true; cmd.open_ok := true; cmd.ping_ok := false;
     cmd.listen_ok := true; cmd.shutdown_ok := true |}.

(** The name the health handler greets. *)
Definition greeted (environ : gmap string string) : string :=
  if String.eqb (server.Getenv environ "NAME") "" then "World"
  else server.Getenv environ "NAME".

(** [strings.Join(parts, sep)] for a separator of one byte, the inverse the
    statements about [Split] are written against. *)
Fixpoint Join (parts : list string) (sep : ascii) : string :=
  match parts with
  | [] => ""
  | [p] => p
  | p :: rest => (p ++ String sep (Join rest sep))%string
  end.

(** * Properties *)

(** ** Splitting at a byte *)

Section SplitFacts.
Import gostrings.
Variable sep : ascii.

Lemma Split_nonempty (s : string) : Split s sep <> [].
Proof.
  destruct s as [|a rest]; simpl; [discriminate|].
  destruct (Ascii.eqb a sep); [discriminate|].
  destruct (Split rest sep); discriminate.
Qed.

Lemma Split_length (s : string) :
  length (Split s sep) = S (Count s sep).
Proof.
  induction s as [|a rest IH]; simpl; [reflexivity|].
  destruct (Ascii.eqb a sep); simpl.
  - rewrite IH. reflexivity.
  - destruct (Split rest sep) as [|hd tl] eqn:E.
    + exfalso. exact (Split_nonempty rest E).
    + simpl in *. exact IH.
Qed.

Lemma Split_no_sep (s : string) :
  Count s sep = 0 <-> Split s sep = [s].
Proof.
  split.
  - induction s as [|a rest IH]; simpl; [reflexivity|].
    destruct (Ascii.eqb a sep); simpl; [discriminate|].
    intros H. rewrite (IH H). reflexivity.
  - intros H. pose proof (Split_length s) as L. rewrite H in L.
    simpl in L. lia.
Qed.

Lemma Split_singleton (s b : string) :
  Split s sep = [b] -> s = b /\ Count s sep = 0.
Proof.
  intros H. pose proof (Split_length s) as L. rewrite H in L.
  simpl in L. assert (Count s sep = 0) as C by lia.
  rewrite (proj1 (Split_no_sep s) C) in H. split; congruence.
Qed.

(** Two parts come from exactly one separator: the string is the first
    part, the separator, the second part, and neither part holds one. *)
Lemma Split_two (s a b : string) :
  Split s sep = [a; b] <->
  s = (a ++ String sep b)%string /\ Count a sep = 0 /\ Count b sep = 0.
Proof.
  revert a. induction s as [|c rest IH]; intros a; simpl.
  - split; [discriminate|]. intros [H _]. destruct a; discriminate.
  - destruct (Ascii.eqb_spec c sep) as [->|Hne].
    + split.
      * intros H. injection H as <- H.
        destruct (Split_singleton _ _ H) as [-> Hb].
        simpl. auto.
      * intros (H & Ha & Hb). destruct a as [|c' a'].
        -- simpl in H. injection H as ->.
           rewrite (proj1 (Split_no_sep b) Hb). reflexivity.
        -- simpl in H. injection H as <- _. simpl in Ha.
           rewrite Ascii.eqb_refl in Ha. discriminate.
    + split.
      * intros H. destruct (Split rest sep) as [|hd tl] eqn:E; [discriminate|].
        injection H as <- ->.
        destruct (proj1 (IH hd) eq_refl) as (-> & Ha & Hb).
        simpl. destruct (Ascii.eqb_spec c sep); [congruence|].
        simpl. auto.
      * intros (H & Ha & Hb). destruct a as [|c' a'].
        -- simpl in H. injection H as E _. congruence.
        -- simpl in H. injection H as <- ->. simpl in Ha.
           destruct (Ascii.eqb c sep); [discriminate|]. simpl in Ha.
           rewrite (proj2 (IH a') (conj eq_refl (conj Ha Hb))).
           reflexivity.
Qed.

End SplitFacts.

(** ** GetAPIKey *)

Section GetAPIKeyFacts.
Import gostrings utils.

Lemma GetAPIKey_cases (headers : http.Header) :
  (auth_value headers = "" /\
   GetAPIKey headers = ("", Some "no auth info found"))
  \/ (auth_value headers <> "" /\ length (auth_parts headers) <> 2 /\
      GetAPIKey headers = ("", Some "malformed auth header"))
  \/ (auth_value headers <> "" /\ length (auth_parts headers) = 2 /\
      nth 0 (auth_parts headers) "" <> "ApiKey" /\
      GetAPIKey headers = ("", Some "malformed first part of auth header"))
  \/ (well_formed headers /\
      GetAPIKey headers = (nth 1 (auth_parts headers) "", None)).
Proof.
  unfold well_formed, auth_parts, auth_value, GetAPIKey.
  destruct (String.eqb_spec (http.Get headers "x-api-key") "") as [E|E];
    [left; auto|right].
  destruct (Nat.eqb_spec (length (Split (http.Get headers "x-api-key") " ")) 2)
    as [L|L]; simpl; [right|left; auto].
  destruct (String.eqb_spec
              (nth 0 (Split (http.Get headers "x-api-key") " ") "") "ApiKey")
    as [F|F]; simpl; [right|left]; auto.
Qed.

(** The accepted header values, read off the string itself: the literal
    [ApiKey], one space, and a key that holds no space. *)
Lemma GetAPIKey_accepts (headers : http.Header) (key : string) :
  GetAPIKey headers = (key, None) <->
  auth_value headers = ("ApiKey " ++ key)%string /\ Count key " "%char = 0.
Proof.
  split.
  - intros H.
    destruct (GetAPIKey_cases headers)
      as [[_ K]|[(_ & _ & K)|[(_ & _ & _ & K)|[(_ & L & F) K]]]];
      rewrite K in H; try discriminate.
    injection H as H. unfold auth_parts in *.
    destruct (Split (auth_value headers) " ") as [|a [|b [|c l]]] eqn:S;
      simpl in L; try discriminate.
    simpl in F, H. subst a b.
    apply Split_two in S as (S & _ & Hk). split; [exact S|exact Hk].
  - intros [V Hk].
    assert (Split (auth_value headers) " " = ["ApiKey"; key]) as S.
    { apply Split_two. split; [exact V|]. split; [reflexivity|exact Hk]. }
    unfold GetAPIKey. fold (auth_value headers). rewrite S. simpl.
    destruct (String.eqb_spec (auth_value headers) "") as [E|_];
      [rewrite V in E; discriminate|reflexivity].
Qed.

End GetAPIKeyFacts.

(** C8. [GetAPIKey] returns no error exactly when the value of the
    [x-api-key] header is non-empty and splits at spaces into exactly two
    parts of which the first is the literal [ApiKey]; it then returns the
    second part. In every other case it returns the empty string with an
    error: a missing (empty) value, a number of parts other than two, and a
    first part other than [ApiKey] each have their own message, and the
    three messages differ. *)
Theorem GetAPIKey_spec (headers : http.Header) :
  let val := auth_value headers in
  let vals := auth_parts headers in
  (snd (utils.GetAPIKey headers) = None <-> well_formed headers)
  /\ (well_formed headers ->
      utils.GetAPIKey headers = (nth 1 vals "", None))
  /\ (~ well_formed headers ->
      fst (utils.GetAPIKey headers) = "" /\ snd (utils.GetAPIKey headers) <> None)
  /\ (val = "" ->
      utils.GetAPIKey headers = ("", Some "no auth info found"))
  /\ (val <> "" -> length vals <> 2 ->
      utils.GetAPIKey headers = ("", Some "malformed auth header"))
  /\ (val <> "" -> length vals = 2 -> nth 0 vals "" <> "ApiKey" ->
      utils.GetAPIKey headers = ("", Some "malformed first part of auth header"))
  /\ "no auth info found" <> "malformed auth header"
  /\ "no auth info found" <> "malformed first part of auth header"
  /\ "malformed auth header" <> "malformed first part of auth header".
Proof.
  intros val vals. subst val vals.
  assert ("no auth info found" <> "malformed auth header"
          /\ "no auth info found" <> "malformed first part of auth header"
          /\ "malformed auth header" <> "malformed first part of auth header")
    as D by (repeat split; discriminate).
  destruct (GetAPIKey_cases headers)
    as [[E K]|[(E & L & K)|[(E & L & F & K)|[W K]]]];
    rewrite K; simpl.
  all: refine (conj _ (conj _ (conj _ (conj _ (conj _ (conj _ D)))))).
  all: try (assert (~ well_formed headers) as N
              by (unfold well_formed; intros (? & ? & ?); congruence)).
  all: try (pose proof W as (WE & WL & WF)).
  all: intros; try contradiction; try congruence.
  all: split; intros; try contradiction; try congruence.
Qed.

(** The theorem at three concrete header sets: an accepted value, a value
    with three parts and a value with the wrong scheme. *)
Lemma GetAPIKey_spec_witness :
  well_formed {[ "X-Api-Key" := ["ApiKey abc123"] ]}
  /\ utils.GetAPIKey {[ "X-Api-Key" := ["ApiKey abc123"] ]} = ("abc123", None)
  /\ utils.GetAPIKey {[ "X-Api-Key" := ["ApiKey a b"] ]}
     = ("", Some "malformed auth header")
  /\ utils.GetAPIKey {[ "X-Api-Key" := ["Bearer abc123"] ]}
     = ("", Some "malformed first part of auth header")
  /\ utils.GetAPIKey ∅ = ("", Some "no auth info found").
Proof.
  assert (well_formed {[ "X-Api-Key" := ["ApiKey abc123"] ]}) as W.
  { unfold well_formed. vm_compute. repeat split; discriminate. }
  split; [exact W|]. split.
  - exact (proj1 (proj2 (GetAPIKey_spec {[ "X-Api-Key" := ["ApiKey abc123"] ]})) W).
  - split; [|split].
    + apply (GetAPIKey_spec {[ "X-Api-Key" := ["ApiKey a b"] ]});
        vm_compute; discriminate.
    + apply (GetAPIKey_spec {[ "X-Api-Key" := ["Bearer abc123"] ]});
        vm_compute; try reflexivity; discriminate.
    + apply (GetAPIKey_spec ∅). reflexivity.
Defined.

(** A value that ends in the separating space is accepted, with the empty
    key; two spaces in a row give three parts. *)
Example GetAPIKey_empty_key :
  utils.GetAPIKey {[ "X-Api-Key" := ["ApiKey "] ]} = ("", None)
  /\ utils.GetAPIKey {[ "X-Api-Key" := ["ApiKey  k"] ]}
     = ("", Some "malformed auth header")
  /\ utils.GetAPIKey {[ "x-api-key" := ["ApiKey k"] ]}
     = ("", Some "no auth info found").
Proof. repeat split; vm_compute; reflexivity. Qed.

(** ** The API model converters *)

Section RangeAssign.
Context {A B : Type} (f : A -> B).

(** The loop invariant: entered at [i] with a prefix already written,
    the loop overwrites the next [length xs] cells with the images. *)
Lemma range_assign_app (xs : list A) (done_ todo rest : list B) :
  length todo = length xs ->
  goslice.range_assign f (length done_) xs (done_ ++ todo ++ rest)
  = done_ ++ map f xs ++ rest.
Proof.
  revert done_ todo. induction xs as [|x xs IH]; intros done_ todo L.
  - destruct todo; [reflexivity|discriminate].
  - destruct todo as [|t todo]; [discriminate|]. simpl in L.
    injection L as L. simpl.
    replace (<[length done_:=f x]> (done_ ++ t :: todo ++ rest))
      with ((done_ ++ [f x]) ++ todo ++ rest).
    + replace (S (length done_)) with (length (done_ ++ [f x]))
        by (rewrite length_app; simpl; lia).
      rewrite (IH (done_ ++ [f x]) todo L).
      rewrite <- app_assoc. reflexivity.
    + rewrite insert_app_r_alt by lia. rewrite Nat.sub_diag.
      rewrite <- app_assoc. reflexivity.
Qed.

Lemma range_assign_make (zero : B) (xs : list A) :
  goslice.range_assign f 0 xs (goslice.make zero (length xs)) = map f xs.
Proof.
  pose proof (range_assign_app xs [] (goslice.make zero (length xs)) []) as H.
  simpl in H. rewrite !app_nil_r in H. apply H.
  unfold goslice.make. apply length_replicate.
Qed.

(** Every index the loop writes lies inside the slice [make] built. *)
Lemma range_assign_in_range (zero : B) (xs : list A) (i : nat) :
  i < length xs -> i < length (goslice.make zero (length xs)).
Proof. unfold goslice.make. rewrite length_replicate. auto. Qed.

End RangeAssign.

(** C9. The API post built from a database post has a nil [Description]
    exactly when the database [Description] is not [Valid]; when it is
    [Valid] the pointer holds the database [Description]'s [String]. [ID],
    [Title], [Url], [FeedID], [PublishedAt], [CreatedAt] and [UpdatedAt] are
    copied unchanged. *)
Theorem convertDatabasePostToAPIPost_spec (dbPost : database.Post) :
  let post := handlers.convertDatabasePostToAPIPost dbPost in
  let d := database.Post_Description dbPost in
  (handlers.Post_Description post = None <-> NullString_Valid d = false)
  /\ (NullString_Valid d = true ->
      handlers.Post_Description post = Some (NullString_String d))
  /\ handlers.Post_ID post = database.Post_ID dbPost
  /\ handlers.Post_Title post = database.Post_Title dbPost
  /\ handlers.Post_Url post = database.Post_Url dbPost
  /\ handlers.Post_FeedID post = database.Post_FeedID dbPost
  /\ handlers.Post_PublishedAt post = database.Post_PublishedAt dbPost
  /\ handlers.Post_CreatedAt post = database.Post_CreatedAt dbPost
  /\ handlers.Post_UpdatedAt post = database.Post_UpdatedAt dbPost.
Proof.
  destruct dbPost as [id c u t [s v] p url fid]; simpl.
  destruct v; repeat split; intros; try reflexivity; discriminate.
Qed.

(** A post with a description, and one whose description is invalid though
    its [String] is not empty. *)
Lemma convertDatabasePostToAPIPost_spec_witness :
  handlers.Post_Description
    (handlers.convertDatabasePostToAPIPost
       (sample_post {| NullString_String := "v2"; NullString_Valid := true |}))
  = Some "v2"
  /\ handlers.Post_Description
       (handlers.convertDatabasePostToAPIPost
          (sample_post {| NullString_String := "stale"; NullString_Valid := false |}))
     = None.
Proof.
  split.
  - apply (convertDatabasePostToAPIPost_spec
             (sample_post {| NullString_String := "v2"; NullString_Valid := true |})).
    reflexivity.
  - apply (convertDatabasePostToAPIPost_spec
             (sample_post {| NullString_String := "stale"; NullString_Valid := false |})).
    reflexivity.
Defined.

(** C10. The slice converters are the maps of the element converters: the
    result has the length of the input, its i-th element is the conversion
    of the i-th input element, an index outside the input is outside the
    result, and the empty slice is converted to the empty slice. *)
Theorem convert_slices_map :
  (forall dbFeeds : list database.Feed,
      handlers.convertDatabaseFeedsToAPIFeeds dbFeeds
      = map handlers.convertDatabaseFeedToAPIFeed dbFeeds
      /\ length (handlers.convertDatabaseFeedsToAPIFeeds dbFeeds) = length dbFeeds
      /\ forall i : nat,
          handlers.convertDatabaseFeedsToAPIFeeds dbFeeds !! i
          = handlers.convertDatabaseFeedToAPIFeed <$> dbFeeds !! i)
  /\ (forall dbPosts : list database.Post,
      handlers.convertDatabasePostsToAPIPosts dbPosts
      = map handlers.convertDatabasePostToAPIPost dbPosts
      /\ length (handlers.convertDatabasePostsToAPIPosts dbPosts) = length dbPosts
      /\ forall i : nat,
          handlers.convertDatabasePostsToAPIPosts dbPosts !! i
          = handlers.convertDatabasePostToAPIPost <$> dbPosts !! i)
  /\ handlers.convertDatabaseFeedsToAPIFeeds [] = []
  /\ handlers.convertDatabasePostsToAPIPosts [] = [].
Proof.
  assert (forall dbFeeds, handlers.convertDatabaseFeedsToAPIFeeds dbFeeds
                          = map handlers.convertDatabaseFeedToAPIFeed dbFeeds) as F.
  { intros. apply range_assign_make. }
  assert (forall dbPosts, handlers.convertDatabasePostsToAPIPosts dbPosts
                          = map handlers.convertDatabasePostToAPIPost dbPosts) as P.
  { intros. apply range_assign_make. }
  repeat split; try reflexivity.
  - apply F.
  - rewrite F. apply length_map.
  - intros i. rewrite F. apply list_lookup_fmap.
  - apply P.
  - rewrite P. apply length_map.
  - intros i. rewrite P. apply list_lookup_fmap.
Qed.

Example select_never_fetched_first :
  storage.listFeedsToFetch 1 [feed_B; feed_A] = [feed_A]
  /\ storage.listFeedsToFetch 2 [feed_B; feed_C; feed_A] = [feed_A; feed_C].
Proof. split; vm_compute; reflexivity. Qed.

(** ** Selection of the feeds to fetch *)

Section FetchOrder.
Import storage.

Lemma fetch_before_spec (a b : FeedRow) :
  fetch_before a b <->
  match last_fetched a, last_fetched b with
  | None, None => (feed_id a <= feed_id b)%N
  | None, Some _ => True
  | Some _, None => False
  | Some ta, Some tb => (ta < tb)%Z \/ (ta = tb /\ (feed_id a <= feed_id b)%N)
  end.
Proof.
  unfold fetch_before, fetch_key_leb.
  destruct (last_fetched a) as [ta|], (last_fetched b) as [tb|]; simpl.
  - rewrite orb_True, andb_True, !Is_true_true.
    rewrite Z.ltb_lt, Z.eqb_eq, N.leb_le. reflexivity.
  - tauto.
  - tauto.
  - rewrite Is_true_true, N.leb_le. reflexivity.
Qed.

#[global] Instance fetch_before_total : Total fetch_before.
Proof.
  intros a b. rewrite !fetch_before_spec.
  destruct (last_fetched a), (last_fetched b); lia.
Qed.

#[global] Instance fetch_before_trans : Transitive fetch_before.
Proof.
  intros a b c. rewrite !fetch_before_spec.
  destruct (last_fetched a), (last_fetched b), (last_fetched c); lia.
Qed.

(** Two rows that may each come first have the same marker and the same
    identifier. *)
Lemma fetch_before_antisym (a b : FeedRow) :
  fetch_before a b -> fetch_before b a ->
  last_fetched a = last_fetched b /\ feed_id a = feed_id b.
Proof.
  rewrite !fetch_before_spec.
  destruct (last_fetched a), (last_fetched b); intros H1 H2;
    try contradiction; (split; [first [reflexivity|f_equal; lia]|lia]).
Qed.

Lemma never_fetched_first (a b : FeedRow) :
  last_fetched a = None -> last_fetched b <> None -> ~ fetch_before b a.
Proof.
  intros Ha Hb. rewrite fetch_before_spec, Ha.
  destruct (last_fetched b); [tauto|congruence].
Qed.

(** The batch is a prefix of the whole table in fetch order. *)
Lemma listFeedsToFetch_prefix (limit : nat) (feeds : list FeedRow) :
  exists rest,
    feeds ≡ₚ listFeedsToFetch limit feeds ++ rest
    /\ StronglySorted fetch_before (listFeedsToFetch limit feeds ++ rest).
Proof.
  exists (drop limit (merge_sort fetch_before feeds)).
  unfold listFeedsToFetch. rewrite take_drop. split.
  - symmetry. apply merge_sort_Permutation.
  - apply StronglySorted_merge_sort; apply _.
Qed.

Lemma StronglySorted_lookup (l : list FeedRow) (i j : nat) (a b : FeedRow) :
  StronglySorted fetch_before l -> i < j ->
  l !! i = Some a -> l !! j = Some b -> fetch_before a b.
Proof.
  intros S. revert i j. induction S as [|x l S IH F]; intros i j Hij Hi Hj.
  - rewrite lookup_nil in Hi. discriminate.
  - destruct j as [|j]; [lia|]. simpl in Hj. destruct i as [|i].
    + simpl in Hi. injection Hi as <-.
      rewrite Forall_forall in F. apply F.
      eapply list_elem_of_lookup_2. exact Hj.
    + simpl in Hi. apply (IH i j); [lia|assumption|assumption].
Qed.

End FetchOrder.

Lemma NoDup_feed_id_inj (l : list storage.FeedRow) (x y : storage.FeedRow) :
  NoDup (storage.feed_id <$> l) -> x ∈ l -> y ∈ l ->
  storage.feed_id x = storage.feed_id y -> x = y.
Proof.
  induction l as [|z l IH]; intros ND Hx Hy E.
  - inversion Hx.
  - rewrite fmap_cons in ND. apply NoDup_cons in ND as [Hz ND].
    apply elem_of_cons in Hx as [->|Hx]; apply elem_of_cons in Hy as [->|Hy].
    + reflexivity.
    + exfalso. apply Hz. rewrite E. apply list_elem_of_fmap_2. exact Hy.
    + exfalso. apply Hz. rewrite <- E. apply list_elem_of_fmap_2. exact Hx.
    + apply IH; assumption.
Qed.

(** With identifiers that are unique, the order in which the rows were
    created (the order of the table) does not show in the batch. *)
Lemma listFeedsToFetch_order_independent
      (limit : nat) (feeds1 feeds2 : list storage.FeedRow) :
  NoDup (storage.feed_id <$> feeds1) -> feeds1 ≡ₚ feeds2 ->
  storage.listFeedsToFetch limit feeds1 = storage.listFeedsToFetch limit feeds2.
Proof.
  intros ND P. unfold storage.listFeedsToFetch. f_equal.
  apply (StronglySorted_unique_strong storage.fetch_before).
  - intros x1 x2 H1 H2 R1 R2.
    destruct (fetch_before_antisym x1 x2 R1 R2) as [_ E].
    apply (NoDup_feed_id_inj feeds1); [exact ND| | |exact E].
    + rewrite <- (merge_sort_Permutation storage.fetch_before feeds1). exact H1.
    + rewrite P. rewrite <- (merge_sort_Permutation storage.fetch_before feeds2).
      exact H2.
  - apply StronglySorted_merge_sort; apply _.
  - apply StronglySorted_merge_sort; apply _.
  - rewrite !merge_sort_Permutation. exact P.
Qed.

(** C2. In the batch [listFeedsToFetch limit] selects, every feed that was
    never fetched stands before every feed that was, and is selected
    whenever a fetched feed is, whatever the order of the table; fetched
    feeds stand by last-fetched time ascending, equal times by identifier;
    the batch is the first [limit] rows of the table in that order. *)
Theorem listFeedsToFetch_spec (limit : nat) (feeds : list storage.FeedRow) :
  let batch := storage.listFeedsToFetch limit feeds in
  (exists rest, feeds ≡ₚ batch ++ rest
                /\ StronglySorted storage.fetch_before (batch ++ rest))
  /\ length batch = min limit (length feeds)
  /\ (forall i j a b,
        batch !! i = Some a -> batch !! j = Some b ->
        storage.last_fetched a = None -> storage.last_fetched b <> None ->
        i < j)
  /\ (forall a b,
        a ∈ feeds -> b ∈ batch ->
        storage.last_fetched a = None -> storage.last_fetched b <> None ->
        a ∈ batch)
  /\ (forall i j a b ta tb,
        i < j -> batch !! i = Some a -> batch !! j = Some b ->
        storage.last_fetched a = Some ta -> storage.last_fetched b = Some tb ->
        (ta < tb)%Z \/ (ta = tb /\ (storage.feed_id a <= storage.feed_id b)%N))
  /\ (forall feeds',
        NoDup (storage.feed_id <$> feeds) -> feeds ≡ₚ feeds' ->
        storage.listFeedsToFetch limit feeds' = batch).
Proof.
  intros batch.
  destruct (listFeedsToFetch_prefix limit feeds) as (rest & P & S).
  fold batch in P, S.
  assert (StronglySorted storage.fetch_before batch) as Sb.
  { apply StronglySorted_app in S as (_ & Sb & _). exact Sb. }
  split; [exists rest; auto|]. split.
  { unfold batch, storage.listFeedsToFetch. rewrite length_take.
    rewrite (Permutation_length (merge_sort_Permutation _ feeds)). reflexivity. }
  split; [|split; [|split]].
  - intros i j a b Hi Hj Ha Hb.
    destruct (Nat.lt_trichotomy i j) as [Lt|[Eq|Gt]]; [exact Lt| |].
    + subst j. rewrite Hi in Hj. injection Hj as <-. congruence.
    + exfalso. apply (never_fetched_first a b Ha Hb).
      exact (StronglySorted_lookup batch j i b a Sb Gt Hj Hi).
  - intros a b Ha Hb Na Nb. rewrite P in Ha.
    apply elem_of_app in Ha as [Ha|Ha]; [exact Ha|].
    exfalso. apply (never_fetched_first a b Na Nb).
    apply StronglySorted_app in S as (C & _ & _). exact (C b a Hb Ha).
  - intros i j a b ta tb Lt Hi Hj Ha Hb.
    pose proof (StronglySorted_lookup batch i j a b Sb Lt Hi Hj) as R.
    rewrite fetch_before_spec, Ha, Hb in R. exact R.
  - intros feeds' ND Pf. symmetry.
    apply listFeedsToFetch_order_independent; assumption.
Qed.

(** The scenario of the spec: A was never fetched, B was fetched ten
    minutes ago and was created first, the batch size is one. *)
Lemma listFeedsToFetch_spec_witness :
  storage.listFeedsToFetch 1 [feed_B; feed_A] = [feed_A]
  /\ feed_A ∈ storage.listFeedsToFetch 2 [feed_B; feed_C; feed_A]
  /\ storage.listFeedsToFetch 2 [feed_A; feed_C; feed_B]
     = storage.listFeedsToFetch 2 [feed_B; feed_C; feed_A].
Proof.
  split; [vm_compute; reflexivity|]. split.
  - apply (proj1 (proj2 (proj2 (proj2
             (listFeedsToFetch_spec 2 [feed_B; feed_C; feed_A])))) feed_A feed_C).
    + apply list_elem_of_In. simpl. auto.
    + apply list_elem_of_In. vm_compute. auto.
    + reflexivity.
    + discriminate.
  - apply (listFeedsToFetch_spec 2 [feed_B; feed_C; feed_A]).
    + apply NoDup_ListNoDup. vm_compute.
      repeat (constructor; [simpl; intuition discriminate|]). constructor.
    + apply Permutation_rev.
Defined.

(** ** Deduplication on the canonical URL *)

Section Dedup.
Import storage pipeline.












End Dedup.

Section DedupRuns.
Import storage pipeline.



End DedupRuns.




(** ** One feed-cycle *)

Section Cycle.
Import storage pipeline.








End Cycle.

Section CycleMarks.
Import storage pipeline.



End CycleMarks.




(** Under the policy that leaves a failed cycle unmarked, a cycle whose
    fetch fails ends in [Failed] without any storage call; with storage
    down, the first insert fails, the other candidates are abandoned and
    the feed is not marked. *)
Example failed_cycles_unmarked :
  pipeline.runCycle false env_up 9%N 999%Z (pipeline.BadStatus 500) world0
  = (pipeline.Failed pipeline.FetchError, world0)
  /\ fst (pipeline.runCycle false env_down 9%N 999%Z (pipeline.Body atom3) world0)
     = pipeline.Failed pipeline.PersistError
  /\ pipeline.calls_of world0
       (snd (pipeline.runCycle false env_down 9%N 999%Z (pipeline.Body atom3) world0))
     = [pipeline.CallCreatePost 9%N "https://a.example/1" storage.CreateFailure].
Proof. repeat split; reflexivity. Qed.

(** ** The freshness marker *)

Section Freshness.
Import storage pipeline schedule.












End Freshness.





(** ** The syndication parser *)

Section Parser.
Import parser.



End Parser.



(** ** The worker pool *)

Section Pool.
Import pipeline pool.






Lemma weight_le_1 (s : CycleState) : weight s <= 1.
Proof. unfold weight. destruct (in_flight s); lia. Qed.





End Pool.



(** ** Starting the ingestion core *)

Section Main.
Import cmd.

Lemma serve_no_core_start (env : Env) (port : string) :
  List.filter is_core_start (serve env port) = [].
Proof.
  unfold serve. destruct (listen_ok env), (shutdown_ok env); reflexivity.
Qed.




End Main.




(** * Further properties of the sources *)

(** ** GetAPIKey: results, header lookup and round trip *)

Section GetAPIKeyMore.
Import gostrings utils.

Lemma auth_value_insert_other (headers : http.Header) (k : string)
      (vs : list string) :
  k <> "X-Api-Key" -> auth_value (<[k := vs]> headers) = auth_value headers.
Proof.
  intros Hk. unfold auth_value, http.Get.
  change (http.CanonicalMIMEHeaderKey "x-api-key") with "X-Api-Key".
  rewrite lookup_insert_ne by exact Hk. reflexivity.
Qed.

Lemma auth_value_delete_other (headers : http.Header) (k : string) :
  k <> "X-Api-Key" -> auth_value (delete k headers) = auth_value headers.
Proof.
  intros Hk. unfold auth_value, http.Get.
  change (http.CanonicalMIMEHeaderKey "x-api-key") with "X-Api-Key".
  rewrite lookup_delete_ne by exact Hk. reflexivity.
Qed.

Lemma auth_value_insert (headers : http.Header) (v : string) (rest : list string) :
  auth_value (<["X-Api-Key" := v :: rest]> headers) = v.
Proof.
  unfold auth_value, http.Get.
  change (http.CanonicalMIMEHeaderKey "x-api-key") with "X-Api-Key".
  rewrite lookup_insert_eq. reflexivity.
Qed.

(** The result is a function of the inspected value alone. *)
Lemma GetAPIKey_auth_value (h1 h2 : http.Header) :
  auth_value h1 = auth_value h2 -> GetAPIKey h1 = GetAPIKey h2.
Proof. unfold GetAPIKey, auth_value. intros ->. reflexivity. Qed.

Lemma GetAPIKey_missing (headers : http.Header) :
  auth_value headers = "" -> GetAPIKey headers = ("", Some "no auth info found").
Proof. unfold GetAPIKey, auth_value. intros ->. reflexivity. Qed.

End GetAPIKeyMore.

(** X2. Whatever the headers, the key [GetAPIKey] returns holds no space,
    and a result with an error carries the empty key. *)
Theorem GetAPIKey_key_has_no_space (headers : http.Header) :
  gostrings.Count (fst (utils.GetAPIKey headers)) " "%char = 0
  /\ (snd (utils.GetAPIKey headers) <> None -> fst (utils.GetAPIKey headers) = "").
Proof.
  destruct (utils.GetAPIKey headers) as [key err] eqn:E. simpl.
  destruct err as [msg|].
  - assert (key = "") as ->.
    { destruct (GetAPIKey_cases headers)
        as [[_ K]|[(_ & _ & K)|[(_ & _ & _ & K)|[_ K]]]];
        rewrite K in E; congruence. }
    split; reflexivity.
  - split; [|congruence]. apply GetAPIKey_accepts in E as [_ C]. exact C.
Qed.

Lemma GetAPIKey_key_has_no_space_witness :
  fst (utils.GetAPIKey {[ "X-Api-Key" := ["Bearer abc123"] ]}) = "".
Proof.
  apply (GetAPIKey_key_has_no_space {[ "X-Api-Key" := ["Bearer abc123"] ]}).
  vm_compute. discriminate.
Defined.

(** X3. Only the first value stored under the canonical key [X-Api-Key]
    counts: further values of that header, and every other header set or
    removed, leave the result as it is; without the header, or with an
    empty list of values, the result is the missing-header error. *)
Theorem GetAPIKey_reads_first_value_only (headers : http.Header) :
  (forall k vs, k <> "X-Api-Key" ->
                utils.GetAPIKey (<[k := vs]> headers) = utils.GetAPIKey headers
                /\ utils.GetAPIKey (delete k headers) = utils.GetAPIKey headers)
  /\ (forall v rest,
         utils.GetAPIKey (<["X-Api-Key" := v :: rest]> headers)
         = utils.GetAPIKey {[ "X-Api-Key" := [v] ]})
  /\ utils.GetAPIKey (delete "X-Api-Key" headers) = ("", Some "no auth info found")
  /\ utils.GetAPIKey (<["X-Api-Key" := []]> headers) = ("", Some "no auth info found").
Proof.
  split; [|split; [|split]].
  - intros k vs Hk. split; apply GetAPIKey_auth_value.
    + apply auth_value_insert_other. exact Hk.
    + apply auth_value_delete_other. exact Hk.
  - intros v rest. apply GetAPIKey_auth_value.
    rewrite auth_value_insert. symmetry. apply (auth_value_insert ∅ v []).
  - apply GetAPIKey_missing.
    unfold auth_value, http.Get.
    change (http.CanonicalMIMEHeaderKey "x-api-key") with "X-Api-Key".
    rewrite lookup_delete_eq. reflexivity.
  - apply GetAPIKey_missing.
    unfold auth_value, http.Get.
    change (http.CanonicalMIMEHeaderKey "x-api-key") with "X-Api-Key".
    rewrite lookup_insert_eq. reflexivity.
Qed.

Lemma GetAPIKey_reads_first_value_only_witness :
  utils.GetAPIKey (<["Accept" := ["text/html"]]> {[ "X-Api-Key" := ["ApiKey k1"] ]})
  = utils.GetAPIKey {[ "X-Api-Key" := ["ApiKey k1"] ]}.
Proof.
  apply (GetAPIKey_reads_first_value_only {[ "X-Api-Key" := ["ApiKey k1"] ]}).
  discriminate.
Defined.

(** X4. Round trip: a header set that carries [ApiKey], one space and a
    key gives that key back exactly when the key holds no space; a key
    with a space in it is refused as a malformed header. *)
Theorem GetAPIKey_round_trip (headers : http.Header) (key : string) :
  (gostrings.Count key " "%char = 0 ->
   utils.GetAPIKey (<["X-Api-Key" := ["ApiKey " ++ key]]> headers)%string
   = (key, None))
  /\ (gostrings.Count key " "%char <> 0 ->
      utils.GetAPIKey (<["X-Api-Key" := ["ApiKey " ++ key]]> headers)%string
      = ("", Some "malformed auth header")).
Proof.
  split; intros C.
  - apply GetAPIKey_accepts. rewrite auth_value_insert. auto.
  - destruct (GetAPIKey_cases (<["X-Api-Key" := ["ApiKey " ++ key]]> headers)%string)
      as [[E _]|[(_ & _ & K)|[(_ & L & _)|[(_ & L & _) _]]]].
    + rewrite auth_value_insert in E. discriminate.
    + exact K.
    + unfold auth_parts in L. rewrite auth_value_insert, Split_length in L.
      simpl in L. change ("" +:+ key) with key in L. lia.
    + unfold auth_parts in L. rewrite auth_value_insert, Split_length in L.
      simpl in L. change ("" +:+ key) with key in L. lia.
Qed.

Lemma GetAPIKey_round_trip_witness :
  utils.GetAPIKey (<["X-Api-Key" := ["ApiKey 3f9c"]]> ∅) = ("3f9c", None)
  /\ utils.GetAPIKey (<["X-Api-Key" := ["ApiKey 3f 9c"]]> ∅)
     = ("", Some "malformed auth header").
Proof.
  split.
  - apply (GetAPIKey_round_trip ∅ "3f9c"). reflexivity.
  - apply (GetAPIKey_round_trip ∅ "3f 9c"). discriminate.
Defined.

(** X5. For a header value that is not empty, the error is the
    malformed-header one exactly when the value does not hold exactly one
    space, and the malformed-first-part one exactly when it holds one
    space and does not start with [ApiKey] followed by that space. *)
Theorem GetAPIKey_errors_by_spaces (headers : http.Header) :
  auth_value headers <> "" ->
  (utils.GetAPIKey headers = ("", Some "malformed auth header")
   <-> gostrings.Count (auth_value headers) " "%char <> 1)
  /\ (utils.GetAPIKey headers = ("", Some "malformed first part of auth header")
      <-> gostrings.Count (auth_value headers) " "%char = 1
          /\ forall key, auth_value headers <> ("ApiKey " ++ key)%string).
Proof.
  intros NE.
  pose proof (Split_length " "%char (auth_value headers)) as SL.
  fold (auth_parts headers) in SL.
  destruct (GetAPIKey_cases headers)
    as [[E _]|[(_ & L & K)|[(_ & L & F & K)|[(_ & L & F) K]]]];
    [contradiction| | |]; rewrite K.
  - split; split; intros H; try discriminate; try reflexivity; lia.
  - assert (forall key, auth_value headers <> ("ApiKey " ++ key)%string) as N.
    { intros key V.
      assert (utils.GetAPIKey headers = (key, None)) as A.
      { apply GetAPIKey_accepts. split; [exact V|].
        rewrite V, L in SL. simpl in SL.
        change ("" +:+ key) with key in SL. lia. }
      rewrite K in A. discriminate. }
    split; split; intros H; try discriminate; try reflexivity; try lia.
    split; [lia|exact N].
  - split; split; intros H; try discriminate; try lia.
    destruct H as [_ N]. exfalso.
    apply (N (nth 1 (auth_parts headers) "")).
    apply (GetAPIKey_accepts headers). exact K.
Qed.

Lemma GetAPIKey_errors_by_spaces_witness :
  utils.GetAPIKey {[ "X-Api-Key" := ["ApiKey"] ]} = ("", Some "malformed auth header").
Proof.
  apply (GetAPIKey_errors_by_spaces {[ "X-Api-Key" := ["ApiKey"] ]}).
  - vm_compute. discriminate.
  - vm_compute. discriminate.
Defined.

(** ** The converters: what they keep and what they forget *)

(** X6. The API feed keeps everything: two database feeds with the same
    API feed are the same feed. *)
Theorem convertDatabaseFeedToAPIFeed_injective (f g : database.Feed) :
  handlers.convertDatabaseFeedToAPIFeed f = handlers.convertDatabaseFeedToAPIFeed g ->
  f = g.
Proof.
  destruct f, g. unfold handlers.convertDatabaseFeedToAPIFeed. simpl.
  intros H. injection H as -> -> -> -> -> ->. reflexivity.
Qed.

Lemma convertDatabaseFeedToAPIFeed_injective_witness :
  storage.row_feed feed_A = mk_feed 9%N "A" "https://a.example/rss" 500%Z.
Proof.
  apply (convertDatabaseFeedToAPIFeed_injective
           (storage.row_feed feed_A) (mk_feed 9%N "A" "https://a.example/rss" 500%Z)).
  reflexivity.
Defined.

(** X7. The API post forgets one thing only, the [String] of a
    description that is not [Valid]: two database posts have the same API
    post exactly when they agree on the seven copied fields and their
    descriptions are the same nullable value. *)
Theorem convertDatabasePostToAPIPost_eq_iff (p q : database.Post) :
  handlers.convertDatabasePostToAPIPost p = handlers.convertDatabasePostToAPIPost q
  <-> database.Post_ID p = database.Post_ID q
      /\ database.Post_Title p = database.Post_Title q
      /\ database.Post_Url p = database.Post_Url q
      /\ database.Post_FeedID p = database.Post_FeedID q
      /\ database.Post_PublishedAt p = database.Post_PublishedAt q
      /\ database.Post_CreatedAt p = database.Post_CreatedAt q
      /\ database.Post_UpdatedAt p = database.Post_UpdatedAt q
      /\ same_nullable (database.Post_Description p) (database.Post_Description q).
Proof.
  destruct p as [i1 c1 u1 t1 [s1 v1] p1 l1 f1], q as [i2 c2 u2 t2 [s2 v2] p2 l2 f2].
  unfold handlers.convertDatabasePostToAPIPost, same_nullable. simpl. split.
  - intros H. injection H as -> -> D -> -> -> -> ->.
    repeat (split; [reflexivity|]).
    destruct v1, v2; try discriminate; split; try reflexivity;
      intros; try discriminate; congruence.
  - intros (-> & -> & -> & -> & -> & -> & -> & V & S). subst v2.
    destruct v1; [rewrite (S eq_refl)|]; reflexivity.
Qed.

(** Two posts that differ, in the string left behind an invalid
    description, and have one API post. *)
Lemma convertDatabasePostToAPIPost_eq_iff_witness :
  sample_post {| NullString_String := "stale"; NullString_Valid := false |}
  <> sample_post {| NullString_String := ""; NullString_Valid := false |}
  /\ handlers.convertDatabasePostToAPIPost
       (sample_post {| NullString_String := "stale"; NullString_Valid := false |})
     = handlers.convertDatabasePostToAPIPost
         (sample_post {| NullString_String := ""; NullString_Valid := false |}).
Proof.
  split; [discriminate|].
  apply convertDatabasePostToAPIPost_eq_iff. unfold same_nullable. simpl.
  repeat split; try reflexivity. discriminate.
Defined.

(** X8. The API user copies the six database fields and carries the two
    tokens exactly as given, the empty token included: the two guards on
    the tokens change nothing. *)
Theorem convertDatabaseUserToAPIUser_spec
        (dbUser : database.User) (accessToken refreshToken : string) :
  handlers.convertDatabaseUserToAPIUser dbUser accessToken refreshToken
  = {| handlers.User_ID := database.User_ID dbUser;
       handlers.User_Name := database.User_Name dbUser;
       handlers.User_CreatedAt := database.User_CreatedAt dbUser;
       handlers.User_UpdatedAt := database.User_UpdatedAt dbUser;
       handlers.User_ApiKey := database.User_ApiKey dbUser;
       handlers.User_Email := database.User_Email dbUser;
       handlers.User_AccessToken := accessToken;
       handlers.User_RefreshToken := refreshToken |}.
Proof.
  unfold handlers.convertDatabaseUserToAPIUser.
  destruct (String.eqb_spec accessToken "") as [->|_],
           (String.eqb_spec refreshToken "") as [->|_]; reflexivity.
Qed.

(** ** The slice converters, beyond the map equation *)

Section Slices.
Import handlers.

Lemma feeds_as_map (dbFeeds : list database.Feed) :
  convertDatabaseFeedsToAPIFeeds dbFeeds = map convertDatabaseFeedToAPIFeed dbFeeds.
Proof. apply range_assign_make. Qed.

Lemma posts_as_map (dbPosts : list database.Post) :
  convertDatabasePostsToAPIPosts dbPosts = map convertDatabasePostToAPIPost dbPosts.
Proof. apply range_assign_make. Qed.

Lemma follows_as_map (dbFeedFollows : list database.FeedFollow) :
  convertDatabaseFeedFollowsToAPIFeedFollows dbFeedFollows
  = map convertDatabaseFeedFollowToAPIFeedFollow dbFeedFollows.
Proof. apply range_assign_make. Qed.

End Slices.

(** X9. [convertDatabaseFeedFollowsToAPIFeedFollows] gives a slice of the
    length of its input whose i-th element is the conversion of the i-th
    feed follow, the empty slice for the empty slice; the identifiers come
    out in the order they went in. *)
Theorem convertDatabaseFeedFollowsToAPIFeedFollows_spec
        (dbFeedFollows : list database.FeedFollow) :
  length (handlers.convertDatabaseFeedFollowsToAPIFeedFollows dbFeedFollows)
  = length dbFeedFollows
  /\ (forall i : nat,
        handlers.convertDatabaseFeedFollowsToAPIFeedFollows dbFeedFollows !! i
        = handlers.convertDatabaseFeedFollowToAPIFeedFollow <$> dbFeedFollows !! i)
  /\ map handlers.FeedFollow_ID
         (handlers.convertDatabaseFeedFollowsToAPIFeedFollows dbFeedFollows)
     = map database.FeedFollow_ID dbFeedFollows.
Proof.
  rewrite follows_as_map. split; [apply length_map|]. split.
  - intros i. apply list_lookup_fmap.
  - rewrite map_map. reflexivity.
Qed.

(** X10. The three slice converters go through concatenation: converting
    two slices one after the other is converting them joined, so a page of
    results can be converted piece by piece. *)
Theorem convert_slices_app :
  (forall xs ys : list database.Feed,
      handlers.convertDatabaseFeedsToAPIFeeds (xs ++ ys)
      = handlers.convertDatabaseFeedsToAPIFeeds xs
        ++ handlers.convertDatabaseFeedsToAPIFeeds ys)
  /\ (forall xs ys : list database.Post,
      handlers.convertDatabasePostsToAPIPosts (xs ++ ys)
      = handlers.convertDatabasePostsToAPIPosts xs
        ++ handlers.convertDatabasePostsToAPIPosts ys)
  /\ (forall xs ys : list database.FeedFollow,
      handlers.convertDatabaseFeedFollowsToAPIFeedFollows (xs ++ ys)
      = handlers.convertDatabaseFeedFollowsToAPIFeedFollows xs
        ++ handlers.convertDatabaseFeedFollowsToAPIFeedFollows ys).
Proof.
  split; [|split]; intros xs ys.
  - rewrite !feeds_as_map. apply map_app.
  - rewrite !posts_as_map. apply map_app.
  - rewrite !follows_as_map. apply map_app.
Qed.

(** X11. No placeholder survives the loop: every element of a converted
    slice is the conversion of an element of the input, so the zero value
    [make] filled the slice with is returned only where it is itself a
    conversion. *)
Theorem convert_slices_elements :
  (forall (xs : list database.Feed) (y : handlers.Feed),
      y ∈ handlers.convertDatabaseFeedsToAPIFeeds xs ->
      exists x, x ∈ xs /\ y = handlers.convertDatabaseFeedToAPIFeed x)
  /\ (forall (xs : list database.Post) (y : handlers.Post),
      y ∈ handlers.convertDatabasePostsToAPIPosts xs ->
      exists x, x ∈ xs /\ y = handlers.convertDatabasePostToAPIPost x)
  /\ (forall (xs : list database.FeedFollow) (y : handlers.FeedFollow),
      y ∈ handlers.convertDatabaseFeedFollowsToAPIFeedFollows xs ->
      exists x, x ∈ xs /\ y = handlers.convertDatabaseFeedFollowToAPIFeedFollow x).
Proof.
  split; [|split]; intros xs y H.
  - rewrite feeds_as_map in H. apply list_elem_of_fmap in H as (x & -> & Hx). eauto.
  - rewrite posts_as_map in H. apply list_elem_of_fmap in H as (x & -> & Hx). eauto.
  - rewrite follows_as_map in H. apply list_elem_of_fmap in H as (x & -> & Hx). eauto.
Qed.

Lemma convert_slices_elements_witness :
  exists x, x ∈ [sample_follow 1%N; sample_follow 2%N]
            /\ handlers.convertDatabaseFeedFollowToAPIFeedFollow (sample_follow 2%N)
               = handlers.convertDatabaseFeedFollowToAPIFeedFollow x.
Proof.
  apply (proj2 (proj2 convert_slices_elements)
           [sample_follow 1%N; sample_follow 2%N]).
  apply list_elem_of_In. vm_compute. auto.
Defined.

(** ** main: how a run ends, what it closes and when it listens *)


(** X14. The server of main listens exactly when start-up succeeds, once,
    on the port of [PORT] or on 3000 when [PORT] is empty, never on an
    empty port; and the eleven routes are registered exactly then. *)
Theorem main_listens_when_started (env : cmd.Env) :
  List.filter cmd.is_listen (cmd.main env)
  = (if serving env
     then [cmd.GoListenAndServe (":" ++ listen_port (cmd.PORT env))]
     else [])
  /\ List.filter is_route (cmd.main env)
     = (if serving env then map cmd.HandleFunc cmd.routes else [])
  /\ listen_port (cmd.PORT env) <> "".
Proof.
  split; [|split].
  - unfold serving, listen_port, cmd.main, cmd.serve, cmd.routes.
    destruct (cmd.dotenv_ok env), (String.eqb (cmd.PORT env) ""),
      (String.eqb (cmd.POSTGRES_URL env) ""), (cmd.redis_ok env),
      (cmd.open_ok env), (cmd.ping_ok env), (cmd.listen_ok env), (cmd.shutdown_ok env);
      reflexivity.
  - unfold serving, cmd.main, cmd.serve, cmd.routes.
    destruct (cmd.dotenv_ok env), (String.eqb (cmd.PORT env) ""),
      (String.eqb (cmd.POSTGRES_URL env) ""), (cmd.redis_ok env),
      (cmd.open_ok env), (cmd.ping_ok env), (cmd.listen_ok env), (cmd.shutdown_ok env);
      reflexivity.
  - unfold listen_port.
    destruct (String.eqb_spec (cmd.PORT env) ""); [discriminate|assumption].
Qed.

(** X15. The ingestion core is started before the database is pinged: in
    a run that gets a database handle and then fails the ping, the core
    has been started and the run ends in the ping's [Fatal], without a
    listener. *)
Theorem main_starts_core_before_ping (env : cmd.Env) :
  cmd.reaches_core env -> cmd.ping_ok env = false ->
  (exists before,
      cmd.main env
      = before ++ [cmd.GoRSSFeedScrapper 10 cmd.Minute; cmd.Ping;
                   cmd.Fatal "can't reach postgres database"])
  /\ List.filter cmd.is_listen (cmd.main env) = [].
Proof.
  intros (U & R & O) P. unfold cmd.main. rewrite R, O, P.
  destruct (String.eqb_spec (cmd.POSTGRES_URL env) "") as [E|_]; [contradiction|].
  split.
  - exists ([cmd.Log "starting server..."; cmd.LoadDotenv]
            ++ (if cmd.dotenv_ok env then [] else [cmd.Log "No .env file found"])
            ++ (if String.eqb (cmd.PORT env) ""
                then [cmd.Log "defaulting to port 3000"] else [])
            ++ [cmd.InitRedis; cmd.OpenDB (cmd.POSTGRES_URL env)]).
    destruct (cmd.dotenv_ok env), (String.eqb (cmd.PORT env) ""); reflexivity.
  - destruct (cmd.dotenv_ok env), (String.eqb (cmd.PORT env) ""); reflexivity.
Qed.

Lemma main_starts_core_before_ping_witness :
  cmd.reaches_core env_no_ping
  /\ List.filter cmd.is_listen (cmd.main env_no_ping) = [].
Proof.
  assert (cmd.reaches_core env_no_ping) as R.
  { unfold cmd.reaches_core. simpl. split; [discriminate|split; reflexivity]. }
  split; [exact R|].
  exact (proj2 (main_starts_core_before_ping env_no_ping R eq_refl)).
Defined.

(** X16. The earlier main never starts the ingestion core and never
    touches Redis; it registers the single route [/] when its start-up
    succeeds; and given the same environment, with Redis up, it listens
    where the later main listens. *)
Theorem main0_has_no_core (env0 : main0.Env) :
  List.filter cmd.is_core_start (main0.main env0) = []
  /\ List.filter is_redis (main0.main env0) = []
  /\ List.filter is_route (main0.main env0)
     = (if serving0 env0 then [cmd.HandleFunc "/"] else [])
  /\ (forall env, cmd.redis_ok env = true -> env0 = without_redis env ->
                  List.filter cmd.is_listen (main0.main env0)
                  = List.filter cmd.is_listen (cmd.main env)).
Proof.
  split; [|split; [|split]].
  - unfold main0.main.
    destruct (main0.dotenv_ok env0), (String.eqb (main0.PORT env0) ""),
      (String.eqb (main0.POSTGRES_URL env0) ""), (main0.open_ok env0),
      (main0.ping_ok env0), (main0.listen_ok env0), (main0.shutdown_ok env0); reflexivity.
  - unfold main0.main.
    destruct (main0.dotenv_ok env0), (String.eqb (main0.PORT env0) ""),
      (String.eqb (main0.POSTGRES_URL env0) ""), (main0.open_ok env0),
      (main0.ping_ok env0), (main0.listen_ok env0), (main0.shutdown_ok env0); reflexivity.
  - unfold serving0, main0.main.
    destruct (main0.dotenv_ok env0), (String.eqb (main0.PORT env0) ""),
      (String.eqb (main0.POSTGRES_URL env0) ""), (main0.open_ok env0),
      (main0.ping_ok env0), (main0.listen_ok env0), (main0.shutdown_ok env0); reflexivity.
  - intros env R ->. unfold main0.main, without_redis, cmd.main, cmd.serve,
      cmd.routes. simpl. rewrite R.
    destruct (cmd.dotenv_ok env), (String.eqb (cmd.PORT env) ""),
      (String.eqb (cmd.POSTGRES_URL env) ""),
      (cmd.open_ok env), (cmd.ping_ok env), (cmd.listen_ok env), (cmd.shutdown_ok env);
      reflexivity.
Qed.

Lemma main0_has_no_core_witness :
  List.filter cmd.is_listen (main0.main (without_redis env_ok))
  = [cmd.GoListenAndServe ":8080"].
Proof.
  rewrite (proj2 (proj2 (proj2 (main0_has_no_core (without_redis env_ok))))
             env_ok eq_refl eq_refl).
  reflexivity.
Defined.

(** ** The health handler *)

Section Strings.

Lemma string_length_app (a b : string) :
  String.length (a ++ b) = String.length a + String.length b.
Proof. induction a as [|c a IH]; simpl; [reflexivity|]. rewrite IH. reflexivity. Qed.

Lemma string_app_inv_tail (a b s : string) :
  (a ++ s = b ++ s)%string -> a = b.
Proof.
  revert b. induction a as [|c a IH]; intros [|d b] H; simpl in H.
  - reflexivity.
  - exfalso. apply (f_equal String.length) in H.
    rewrite ?string_length_app in H. simpl in H.
    rewrite ?string_length_app in H. lia.
  - exfalso. apply (f_equal String.length) in H.
    rewrite ?string_length_app in H. simpl in H.
    rewrite ?string_length_app in H. lia.
  - injection H as -> H. f_equal. apply IH. exact H.
Qed.

Lemma string_app_inv_head (s a b : string) :
  (s ++ a = s ++ b)%string -> a = b.
Proof.
  induction s as [|c s IH]; simpl; intros H; [exact H|].
  injection H as H. apply IH. exact H.
Qed.

End Strings.

(** X17. The health handler appends one greeting to whatever the response
    already holds, and never greets the empty name: the name is the value
    of [NAME] when that is set and not empty, and [World] otherwise. A
    status sent before is kept, and 200 is sent when none was. *)
Theorem handlerHealth_greets (environ : gmap string string)
        (w : server.ResponseWriter) :
  exists name,
    name <> ""
    /\ server.body (server.handlerHealth environ w)
       = (server.body w ++ "Hello " ++ name ++ "!" ++ server.LF)%string
    /\ (forall n, environ !! "NAME" = Some n -> n <> "" -> name = n)
    /\ (environ !! "NAME" = None \/ environ !! "NAME" = Some "" -> name = "World")
    /\ server.status (server.handlerHealth environ w)
       = Some (default 200%Z (server.status w)).
Proof.
  exists (greeted environ).
  unfold greeted, server.handlerHealth, server.Getenv.
  destruct (environ !! "NAME") as [n|] eqn:E; simpl.
  - destruct (String.eqb_spec n "") as [->|Hn].
    + repeat split; try discriminate; try reflexivity.
      * intros n' H. injection H as <-. congruence.
      * destruct (server.status w); reflexivity.
    + repeat split; try assumption; try reflexivity.
      * intros n' H. injection H as <-. reflexivity.
      * intros [H|H]; [discriminate|]. injection H as ->. congruence.
      * destruct (server.status w); reflexivity.
  - repeat split; try discriminate; try reflexivity.
    destruct (server.status w); reflexivity.
Qed.

Lemma handlerHealth_greets_witness :
  exists name,
    server.body (server.handlerHealth {[ "NAME" := "Ada" ]} server.fresh)
    = ("Hello " ++ name ++ "!" ++ server.LF)%string
    /\ name = "Ada".
Proof.
  destruct (handlerHealth_greets {[ "NAME" := "Ada" ]} server.fresh)
    as (name & _ & B & N & _).
  exists name. split; [exact B|].
  apply (N "Ada"); [reflexivity|discriminate].
Defined.

(** X18. The greeting tells the names apart: on the same response, two
    environments give the same result exactly when they greet the same
    name, so an unset [NAME], an empty [NAME] and [NAME=World] cannot be
    told apart and any two other names can. *)
Theorem handlerHealth_same_iff (e1 e2 : gmap string string)
        (w : server.ResponseWriter) :
  server.handlerHealth e1 w = server.handlerHealth e2 w
  <-> greeted e1 = greeted e2.
Proof.
  unfold server.handlerHealth. fold (greeted e1). fold (greeted e2). split.
  - intros H. apply (f_equal server.body) in H. simpl in H.
    apply string_app_inv_head in H.
    apply (string_app_inv_head "Hello ") in H.
    apply (string_app_inv_tail _ _ ("!" ++ server.LF)) in H. exact H.
  - intros ->. reflexivity.
Qed.

(** ** The accepted values, and the split GetAPIKey relies on *)

(** X1. [GetAPIKey] returns a key without an error exactly for the header
    values made of the literal [ApiKey], one space and that key, the key
    holding no space (it may be empty). *)
Theorem GetAPIKey_accepts_exactly (headers : http.Header) (key : string) :
  utils.GetAPIKey headers = (key, None)
  <-> auth_value headers = ("ApiKey " ++ key)%string
      /\ gostrings.Count key " "%char = 0.
Proof. apply GetAPIKey_accepts. Qed.

Lemma Join_cons (p : string) (parts : list string) (sep : ascii) :
  parts <> [] -> Join (p :: parts) sep = (p ++ String sep (Join parts sep))%string.
Proof. destruct parts; [congruence|reflexivity]. Qed.

Lemma Join_cons_byte (a : ascii) (hd : string) (tl : list string) (sep : ascii) :
  Join (String a hd :: tl) sep = String a (Join (hd :: tl) sep).
Proof. destruct tl; reflexivity. Qed.

(** X19. The split [GetAPIKey] relies on loses nothing: joining the parts
    with the separator gives the string back, no part holds the
    separator, and there is one part more than there are separators, so
    never none. *)
Theorem Split_Join_round_trip (s : string) (sep : ascii) :
  Join (gostrings.Split s sep) sep = s
  /\ Forall (fun p => gostrings.Count p sep = 0) (gostrings.Split s sep)
  /\ length (gostrings.Split s sep) = S (gostrings.Count s sep).
Proof.
  split; [|split; [|apply Split_length]].
  - induction s as [|a rest IH]; simpl; [reflexivity|].
    destruct (Ascii.eqb_spec a sep) as [->|Hne].
    + rewrite Join_cons by apply Split_nonempty. rewrite IH. reflexivity.
    + destruct (gostrings.Split rest sep) as [|hd tl] eqn:E.
      * exfalso. exact (Split_nonempty sep rest E).
      * rewrite Join_cons_byte, IH. reflexivity.
  - induction s as [|a rest IH]; simpl.
    + constructor; [reflexivity|constructor].
    + destruct (Ascii.eqb_spec a sep) as [->|Hne].
      * constructor; [reflexivity|exact IH].
      * destruct (gostrings.Split rest sep) as [|hd tl] eqn:E.
        -- exfalso. exact (Split_nonempty sep rest E).
        -- apply Forall_cons in IH as [Hh Ht]. constructor; [|exact Ht].
           simpl. destruct (Ascii.eqb_spec a sep); [contradiction|].
           exact Hh.
Qed.
